(** * The legacy shim dumpsys registry and dispatcher

    A shallow embedding of [system/main/shim/dumpsys.cc]: the process-wide
    table [dumpsys_functions_] of dump handlers keyed by an opaque token,
    [RegisterDumpsysFunction], [UnregisterDumpsysFunction] and [Dump].

    Every statement of the three functions is one atomic action of a small
    program type; the same program is given a sequential meaning ([run]) and
    a statement-level interleaving of two threads ([interleave]).  Handlers
    only write to the descriptor, except in the module [reentrant], where they
    may call back into the registry while [Dump] invokes them. *)

From stdpp Require Import base list strings pretty.

Open Scope string_scope.

(** ** Data *)

(** [const void* token]: an address, used for equality and lookup only. *)
Definition Token : Type := N.

(** [int fd]. *)
Definition Fd : Type := Z.

(** [DumpsysFunction] is [std::function<void(int fd)>].  What a handler
    prints is outside this file; here a handler is the text it writes to the
    descriptor it is given, and it does nothing else.  Handlers that call
    [RegisterDumpsysFunction] or [UnregisterDumpsysFunction] while [Dump]
    invokes them are the subject of the module [reentrant] below. *)
Definition DumpsysFunction : Type := Fd → string.

(** [const char** args]. *)
Definition Args : Type := list string.

Definition kModuleName : string := "shim::legacy::dumpsys".

(** The line feed of the format strings. *)
Definition newline : string :=
  String (Ascii.Ascii false true false true false false false false) EmptyString.

(** ** [std::unordered_map<const void*, V>]

    Unique keys; iteration order is unspecified by the standard.  The table is
    an association list, new elements go to the front, and no statement below
    depends on that choice of order. *)
Module unordered_map.

Definition t (V : Type) : Type := list (Token * V).

(** [m.find(k)]: [None] stands for [m.end()]. *)
Fixpoint find {V} (k : Token) (m : t V) : option V :=
  match m with
  | [] => None
  | (k', v) :: m' => if decide (k = k') then Some v else find k m'
  end.

(** [m.insert({k, v})]: inserts only if no element has key [k]. *)
Definition insert {V} (k : Token) (v : V) (m : t V) : t V :=
  match find k m with
  | Some _ => m
  | None => (k, v) :: m
  end.

(** [m.erase(k)]: unlinks the element with key [k], if there is one. *)
Fixpoint erase {V} (k : Token) (m : t V) : t V :=
  match m with
  | [] => []
  | (k', v) :: m' => if decide (k = k') then m' else (k', v) :: erase k m'
  end.

(** [it == m.end()] for the result [it] of [find]. *)
Definition is_end {V} (it : option V) : bool :=
  match it with
  | None => true
  | Some _ => false
  end.

(** [m.empty()]. *)
Definition empty {V} (m : t V) : bool :=
  match m with
  | [] => true
  | _ :: _ => false
  end.

(** [m.size()]. *)
Definition size {V} (m : t V) : nat := length m.

Definition keys {V} (m : t V) : list Token := m.*1.

End unordered_map.

(** ** The process: registry, output and promises *)

(** [std::future_status]. *)
Inductive future_status : Type := ready | timeout | deferred.

(** [a == b] on [std::future_status]. *)
Definition future_status_eqb (a b : future_status) : bool :=
  match a, b with
  | ready, ready | timeout, timeout | deferred, deferred => true
  | _, _ => false
  end.

(** Durations are in milliseconds. *)
Definition seconds (n : N) : N := (1000 * n)%N.

(** What the process does that is visible from outside the registry. *)
Inductive Event : Type :=
  (** [dprintf(fd, ...)] by [Dump] itself *)
  | Dprintf (fd : Fd) (text : string)
  (** [dumpsys.second(fd)]: the handler registered under [token] is called *)
  | Invoke (token : Token) (fd : Fd) (text : string)
  (** [Stack::GetInstance()->CallOnModule<shim::Dumpsys>(closure)], the
      closure holding [promise], [fd] and [args]; [accepted] is its result *)
  | CallOnModule (promise : nat) (fd : Fd) (args : Args) (accepted : bool)
  (** [future.wait_for(bound)] on the future of [promise]: how long the
      caller was blocked and the status returned *)
  | WaitFor (promise : nat) (bound : N) (blocked : N) (status : future_status).

Record World : Type := mkWorld {
  (** the static table of line 33 *)
  dumpsys_functions_ : unordered_map.t DumpsysFunction;
  (** everything done so far, oldest first *)
  trace : list Event;
  (** number of [std::promise] objects constructed so far *)
  promises : nat
}.

(** The process right after static initialisation. *)
Definition initial : World :=
  {| dumpsys_functions_ := []; trace := []; promises := 0 |}.

(** A call either returns or aborts the process. *)
Inductive Outcome (A : Type) : Type :=
  | Returned (a : A) (w : World)
  | Aborted (msg : string) (w : World).
Arguments Returned {A} a w.
Arguments Aborted {A} msg w.

Definition world_of {A} (o : Outcome A) : World :=
  match o with
  | Returned _ w => w
  | Aborted _ w => w
  end.

Definition returns {A} (o : Outcome A) : bool :=
  match o with
  | Returned _ _ => true
  | Aborted _ _ => false
  end.

(** ** Atomic actions *)

Definition M (A : Type) : Type := World → Outcome A.

Definition ret {A} (a : A) : M A := λ w, Returned a w.

Definition bind {A B} (m : M A) (f : A → M B) : M B :=
  λ w, match m w with
       | Returned a w' => f a w'
       | Aborted msg w' => Aborted msg w'
       end.

Definition gets {A} (f : World → A) : M A := λ w, Returned (f w) w.

Definition set_functions
  (f : unordered_map.t DumpsysFunction → unordered_map.t DumpsysFunction) : M unit :=
  λ w, Returned tt {| dumpsys_functions_ := f (dumpsys_functions_ w);
                      trace := trace w;
                      promises := promises w |}.

Definition emit (e : Event) : M unit :=
  λ w, Returned tt {| dumpsys_functions_ := dumpsys_functions_ w;
                      trace := trace w ++ [e];
                      promises := promises w |}.

(** Modelled from the spec: [log::assert_that] of the logging library, which
    is not part of the sources at hand.  A failed assertion is an abort that
    is never recovered from; a true one does nothing. *)
Definition assert_that (cond : bool) (msg : string) : M unit :=
  λ w, if cond then Returned tt w else Aborted msg w.

(** [std::promise<void> promise;]: a new object on every execution. *)
Definition new_promise : M nat :=
  λ w, Returned (promises w)
         {| dumpsys_functions_ := dumpsys_functions_ w;
            trace := trace w;
            promises := S (promises w) |}.

(** What becomes of the [std::promise] that the closure moves into the
    module's [Dump]: its value is set after some delay (the completion
    signal), or it is destroyed without a value after some delay (which also
    makes the future ready, with a broken promise), or it is kept and never
    given a value.  Delays are in milliseconds. *)
Inductive PromiseFate : Type :=
  | SetValue (after : N)
  | Destroyed (after : N)
  | Kept.

(** Whether the closure signals completion. *)
Definition signals_completion (fate : PromiseFate) : bool :=
  match fate with
  | SetValue _ => true
  | Destroyed _ | Kept => false
  end.

(** Modelled from the spec: [Stack::CallOnModule<shim::Dumpsys>] and the
    module's [Dump], which are not part of the sources at hand.  Submission
    answers with a boolean; when it is accepted the closure runs on the
    module's own context, and [promise_fate] is what the module does with the
    promise it was given. *)
Record Stack : Type := mkStack {
  is_running : bool;
  promise_fate : PromiseFate
}.

(** The delay after which the future of the promise is ready, if ever. *)
Definition completes_after (stack : Stack) : option N :=
  match promise_fate stack with
  | SetValue t => Some t
  | Destroyed t => Some t
  | Kept => None
  end.

(** [std::future::wait_for] of the C++ library: ready when the shared state
    becomes ready within the bound, and then the caller was blocked until that
    moment; otherwise timeout, after the whole bound. *)
Definition wait_for (signal : option N) (bound : N) : N * future_status :=
  match signal with
  | Some t => if (t <=? bound)%N then (t, ready) else (bound, timeout)
  | None => (bound, timeout)
  end.

(** [dprintf(fd, ...)] with the formatted [text]. *)
Definition dprintf (fd : Fd) (text : string) : M unit := emit (Dprintf fd text).

(** [Stack::GetInstance()->CallOnModule<shim::Dumpsys>(closure)], the closure
    capturing [promise], [fd] and [args]. *)
Definition Stack_CallOnModule (stack : Stack) (promise : nat) (fd : Fd) (args : Args)
  : M bool :=
  bind (emit (CallOnModule promise fd args (is_running stack)))
       (λ _, ret (is_running stack)).

(** [dumpsys.second(fd)] for the element [dumpsys] of the table. *)
Definition invoke (dumpsys : Token * DumpsysFunction) (fd : Fd) : M unit :=
  emit (Invoke dumpsys.1 fd (dumpsys.2 fd)).

(** [future.wait_for(bound)] on the future of [promise]. *)
Definition future_wait_for (stack : Stack) (promise : nat) (bound : N) : M future_status :=
  let r := wait_for (completes_after stack) bound in
  bind (emit (WaitFor promise bound r.1 r.2)) (λ _, ret r.2).

(** ** Programs: sequences of atomic actions *)

Inductive Prog (A : Type) : Type :=
  | Ret (a : A)
  | Atomic {B : Type} (act : M B) (k : B → Prog A).
Arguments Ret {A} a.
Arguments Atomic {A B} act k.

Fixpoint pbind {A B} (p : Prog A) (f : A → Prog B) : Prog B :=
  match p with
  | Ret a => f a
  | Atomic act k => Atomic act (λ b, pbind (k b) f)
  end.

Notation "'let!' x ':=' a 'in' p" := (Atomic a (λ x, p))
  (at level 10, x name, a at level 200, p at level 200).
Notation "'do!' a ; p" := (Atomic a (λ _, p))
  (at level 10, a at level 100, p at level 200).
Notation "p ;;; q" := (pbind p (λ _, q))
  (at level 100, q at level 200, right associativity).

(** Sequential execution: the actions one after the other. *)
Fixpoint run {A} (p : Prog A) : M A :=
  match p with
  | Ret a => ret a
  | Atomic act k => bind act (λ b, run (k b))
  end.

(** One atomic action of a thread. *)
Definition step {A} (p : Prog A) : M (Prog A) :=
  match p with
  | Ret a => ret (Ret a)
  | Atomic act k => bind act (λ b, ret (k b))
  end.

(** ** The three functions of dumpsys.cc *)

Definition assert_absent_msg : string :=
  "assert failed: dumpsys_functions_.find(token) == dumpsys_functions_.end()".
Definition assert_present_msg : string :=
  "assert failed: dumpsys_functions_.find(token) != dumpsys_functions_.end()".
Definition assert_wait_msg : string :=
  "Timed out waiting for dumpsys to complete".

Definition RegisterDumpsysFunction (token : Token) (func : DumpsysFunction) : Prog unit :=
  do! bind (gets (λ w, unordered_map.find token (dumpsys_functions_ w)))
           (λ it, assert_that (unordered_map.is_end it) assert_absent_msg);
  do! set_functions (unordered_map.insert token func);
  Ret tt.

Definition UnregisterDumpsysFunction (token : Token) : Prog unit :=
  do! bind (gets (λ w, unordered_map.find token (dumpsys_functions_ w)))
           (λ it, assert_that (negb (unordered_map.is_end it)) assert_present_msg);
  do! set_functions (unordered_map.erase token);
  Ret tt.

Definition no_targets_line : string :=
  kModuleName +:+ " No registered dumpsys shim legacy targets" +:+ newline.
Definition header_line (count : nat) : string :=
  kModuleName +:+ " Dumping shim legacy targets:" +:+ pretty count +:+ newline.
Definition not_loaded_line : string :=
  kModuleName +:+ " NOTE: gd dumpsys module not loaded or started" +:+ newline.

(** [for (auto& dumpsys : dumpsys_functions_) dumpsys.second(fd);] over the
    elements found when the loop starts.  These are the elements the loop
    meets as long as the table does not change while it runs; the loop over a
    table that the handlers change is [reentrant.for_each]. *)
Fixpoint for_each (elems : list (Token * DumpsysFunction)) (fd : Fd) : Prog unit :=
  match elems with
  | [] => Ret tt
  | dumpsys :: rest =>
      do! invoke dumpsys fd;
      for_each rest fd
  end.

Definition Dump (stack : Stack) (fd : Fd) (args : Args) : Prog unit :=
  (let! is_empty := gets (λ w, unordered_map.empty (dumpsys_functions_ w)) in
   if is_empty then
     do! dprintf fd no_targets_line;
     Ret tt
   else
     do! bind (gets (λ w, unordered_map.size (dumpsys_functions_ w)))
              (λ count, dprintf fd (header_line count));
     let! elems := gets dumpsys_functions_ in
     for_each elems fd) ;;;
  let! promise := new_promise in
  let! accepted := Stack_CallOnModule stack promise fd args in
  if accepted then
    do! bind (future_wait_for stack promise (seconds 1))
             (λ status, assert_that (future_status_eqb status ready) assert_wait_msg);
    Ret tt
  else
    do! dprintf fd not_loaded_line;
    Ret tt.

(** ** Calls, and sequences of calls made one after the other *)

Inductive Op : Type :=
  | OpRegister (token : Token) (func : DumpsysFunction)
  | OpUnregister (token : Token)
  | OpDump (stack : Stack) (fd : Fd) (args : Args).

Definition call (op : Op) : Prog unit :=
  match op with
  | OpRegister token func => RegisterDumpsysFunction token func
  | OpUnregister token => UnregisterDumpsysFunction token
  | OpDump stack fd args => Dump stack fd args
  end.

Fixpoint calls (ops : list Op) : Prog unit :=
  match ops with
  | [] => Ret tt
  | op :: rest => call op ;;; calls rest
  end.

(** A world in which the next call can be made: every call so far returned. *)
Definition reachable (w : World) : Prop :=
  ∃ ops, run (calls ops) initial = Returned tt w.

(** The first [n] atomic actions of a program. *)
Fixpoint run_steps {A} (n : nat) (p : Prog A) : M (Prog A) :=
  match n with
  | 0 => ret p
  | S n' => bind (step p) (run_steps n')
  end.


(** Whether [op] is a [Register] or [Unregister] of [token]. *)
Definition concerns (token : Token) (op : Op) : bool :=
  match op with
  | OpRegister token' _ => bool_decide (token' = token)
  | OpUnregister token' => bool_decide (token' = token)
  | OpDump _ _ _ => false
  end.

(** The last call of [ops] that registers or unregisters [token]. *)
Fixpoint most_recent (token : Token) (ops : list Op) : option Op :=
  match ops with
  | [] => None
  | op :: rest =>
      match most_recent token rest with
      | Some later => Some later
      | None => if concerns token op then Some op else None
      end
  end.

(** ** Reading a trace *)

(** The events of [w'] that were not yet in [w]. *)
Definition since (w w' : World) : list Event :=
  drop (length (trace w)) (trace w').

Definition is_invoke (e : Event) : bool :=
  match e with
  | Invoke _ _ _ => true
  | _ => false
  end.


Definition is_submission (e : Event) : bool :=
  match e with
  | CallOnModule _ _ _ _ => true
  | _ => false
  end.

Definition is_wait (e : Event) : bool :=
  match e with
  | WaitFor _ _ _ _ => true
  | _ => false
  end.

Definition prints (text : string) (e : Event) : bool :=
  match e with
  | Dprintf _ text' => bool_decide (text' = text)
  | _ => false
  end.

(** The promise an event is about. *)
Definition promise_of (e : Event) : option nat :=
  match e with
  | CallOnModule promise _ _ _ => Some promise
  | WaitFor promise _ _ _ => Some promise
  | _ => None
  end.

(** How often [P] holds in [events]. *)
Definition count (P : Event → bool) (events : list Event) : nat :=
  length (filter (λ e, P e = true) events).

(** ** Two threads *)







(** ** Invariants of programs *)

(** Every atomic action of [p] keeps [I]. *)
Fixpoint preserves (I : World → Prop) {A} (p : Prog A) : Prop :=
  match p with
  | Ret _ => True
  | Atomic act k => (∀ w, I w → I (world_of (act w))) ∧ ∀ b, preserves I (k b)
  end.

(** No two elements of the table have the same key. *)
Definition unique_keys (w : World) : Prop :=
  NoDup (unordered_map.keys (dumpsys_functions_ w)).

(** Every promise named in the trace has been constructed. *)
Definition promises_constructed (w : World) : Prop :=
  ∀ e promise, e ∈ trace w → promise_of e = Some promise → promise < promises w.

(** ** Call histories and the text on a descriptor *)



Definition is_registry_call (op : Op) : bool :=
  match op with
  | OpDump _ _ _ => false
  | _ => true
  end.



(** The descriptor an event writes to or hands to the module. *)
Definition fd_of (e : Event) : option Fd :=
  match e with
  | Dprintf fd _ => Some fd
  | Invoke _ fd _ => Some fd
  | CallOnModule _ fd _ _ => Some fd
  | WaitFor _ _ _ _ => None
  end.

(** The text that [events] put on [fd], in order: the lines of [Dump] and what
    the handlers wrote. *)
Fixpoint written (fd : Fd) (events : list Event) : list string :=
  match events with
  | [] => []
  | Dprintf fd' text :: rest =>
      if decide (fd' = fd) then text :: written fd rest else written fd rest
  | Invoke _ fd' text :: rest =>
      if decide (fd' = fd) then text :: written fd rest else written fd rest
  | _ :: rest => written fd rest
  end.

(** ** Handlers that call back into the registry

    [dumpsys.second(fd)] at line 55 runs code of the registered subsystem, and
    that code may itself call [RegisterDumpsysFunction] and
    [UnregisterDumpsysFunction].  In this module a handler carries the calls
    it makes, and the loop of [Dump] goes over the table as it is when the
    loop gets to each element. *)
Module reentrant.

(** A handler writes [text fd] and then makes the registry calls [calls] in
    order. *)
Inductive Handler : Type :=
  | handler (text : Fd → string) (calls : list RegistryCall)
with RegistryCall : Type :=
  | Register (token : Token) (func : Handler)
  | Unregister (token : Token).

Definition text_of (func : Handler) : Fd → string :=
  match func with
  | handler text _ => text
  end.

Definition calls_of (func : Handler) : list RegistryCall :=
  match func with
  | handler _ calls => calls
  end.


(** Whether the handler makes a [RegisterDumpsysFunction] call. *)
Definition registers (func : Handler) : bool :=
  existsb (λ c, match c with Register _ _ => true | Unregister _ => false end)
          (calls_of func).

Record World : Type := mkWorld {
  dumpsys_functions_ : unordered_map.t Handler;
  trace : list Event;
  promises : nat
}.

(** A call returns, or aborts the process, or does what the C++ standard
    leaves open: the loop of [Dump] goes on from an iterator that an erase of
    its element or a rehashing insert has invalidated, or from an element
    after which a new one may or may not come. *)
Inductive Outcome : Type :=
  | Returned (w : World)
  | Aborted (msg : string) (w : World)
  | Unspecified (w : World).

Definition world_of (o : Outcome) : World :=
  match o with
  | Returned w => w
  | Aborted _ w => w
  | Unspecified w => w
  end.

Definition emit (e : Event) (w : World) : World :=
  {| dumpsys_functions_ := dumpsys_functions_ w;
     trace := trace w ++ [e];
     promises := promises w |}.

Definition RegisterDumpsysFunction (token : Token) (func : Handler) (w : World) : Outcome :=
  if unordered_map.is_end (unordered_map.find token (dumpsys_functions_ w))
  then Returned {| dumpsys_functions_ :=
                     unordered_map.insert token func (dumpsys_functions_ w);
                   trace := trace w;
                   promises := promises w |}
  else Aborted assert_absent_msg w.

Definition UnregisterDumpsysFunction (token : Token) (w : World) : Outcome :=
  if unordered_map.is_end (unordered_map.find token (dumpsys_functions_ w))
  then Aborted assert_present_msg w
  else Returned {| dumpsys_functions_ :=
                     unordered_map.erase token (dumpsys_functions_ w);
                   trace := trace w;
                   promises := promises w |}.

(** The registry calls of a handler, one after the other. *)
Fixpoint callbacks (calls : list RegistryCall) (w : World) : Outcome :=
  match calls with
  | [] => Returned w
  | Register token func :: rest =>
      match RegisterDumpsysFunction token func w with
      | Returned w' => callbacks rest w'
      | o => o
      end
  | Unregister token :: rest =>
      match UnregisterDumpsysFunction token w with
      | Returned w' => callbacks rest w'
      | o => o
      end
  end.

(** [dumpsys.second(fd)] for the element [(token, func)]. *)
Definition invoke (token : Token) (func : Handler) (fd : Fd) (w : World) : Outcome :=
  callbacks (calls_of func) (emit (Invoke token fd (text_of func fd)) w).

(** [for (auto& dumpsys : dumpsys_functions_) dumpsys.second(fd);] where
    [pending] are the elements from the iterator on, as they were when the
    loop started.  An element erased since then is no longer in the table and
    the loop does not come to it; after a handler that erased its own element
    or inserted one, how the loop goes on is not specified. *)
Fixpoint for_each (pending : list (Token * Handler)) (fd : Fd) (w : World) : Outcome :=
  match pending with
  | [] => Returned w
  | (token, func) :: rest =>
      if unordered_map.is_end (unordered_map.find token (dumpsys_functions_ w))
      then for_each rest fd w
      else
        match invoke token func fd w with
        | Returned w' =>
            if registers func ||
               unordered_map.is_end (unordered_map.find token (dumpsys_functions_ w'))
            then Unspecified w'
            else for_each rest fd w'
        | o => o
        end
  end.

Definition Dump (stack : Stack) (fd : Fd) (args : Args) (w : World) : Outcome :=
  match
    (if unordered_map.empty (dumpsys_functions_ w)
     then Returned (emit (Dprintf fd no_targets_line) w)
     else for_each (dumpsys_functions_ w) fd
            (emit (Dprintf fd (header_line (unordered_map.size (dumpsys_functions_ w)))) w))
  with
  | Returned w1 =>
      let promise := promises w1 in
      let w2 := emit (CallOnModule promise fd args (is_running stack))
                  {| dumpsys_functions_ := dumpsys_functions_ w1;
                     trace := trace w1;
                     promises := S promise |} in
      if is_running stack then
        let r := wait_for (completes_after stack) (seconds 1) in
        let w3 := emit (WaitFor promise (seconds 1) r.1 r.2) w2 in
        if future_status_eqb r.2 ready then Returned w3 else Aborted assert_wait_msg w3
      else Returned (emit (Dprintf fd not_loaded_line) w2)
  | o => o
  end.

End reentrant.

(** A handler that only writes, as a handler of the module [reentrant]. *)
Definition quiet (func : DumpsysFunction) : reentrant.Handler :=
  reentrant.handler func [].

Definition quiet_world (w : World) : reentrant.World :=
  {| reentrant.dumpsys_functions_ := (λ d, (d.1, quiet d.2)) <$> dumpsys_functions_ w;
     reentrant.trace := trace w;
     reentrant.promises := promises w |}.

Definition quiet_outcome (o : Outcome unit) : reentrant.Outcome :=
  match o with
  | Returned _ w => reentrant.Returned (quiet_world w)
  | Aborted msg w => reentrant.Aborted msg (quiet_world w)
  end.

(** * Properties *)

(** ** The table *)

Section table.
Context {V : Type}.
Implicit Types (k : Token) (v : V) (m : unordered_map.t V).

Lemma find_None k m : unordered_map.find k m = None ↔ k ∉ unordered_map.keys m.
Proof.
  unfold unordered_map.keys.
  induction m as [|[k' v'] m IH]; simpl.
  - split; [intros _; apply not_elem_of_nil | done].
  - destruct (decide (k = k')) as [->|Hne].
    + split; [done | intros H; destruct H; left].
    + rewrite IH, not_elem_of_cons. tauto.
Qed.


Lemma elem_find k v m :
  NoDup (unordered_map.keys m) → (k, v) ∈ m → unordered_map.find k m = Some v.
Proof.
  unfold unordered_map.keys.
  induction m as [|[k' v'] m IH]; simpl; intros Hnd Hin.
  - by apply elem_of_nil in Hin.
  - apply NoDup_cons in Hnd as [Hk' Hnd].
    apply elem_of_cons in Hin as [[= -> ->]|Hin].
    + by rewrite decide_True.
    + rewrite decide_False; [by apply IH|].
      intros ->. apply Hk'. by apply (list_elem_of_fmap_2 fst _ (k', v)).
Qed.

Lemma keys_erase_sub k m k' :
  k' ∈ unordered_map.keys (unordered_map.erase k m) → k' ∈ unordered_map.keys m.
Proof.
  unfold unordered_map.keys.
  induction m as [|[k0 v0] m IH]; simpl; [done|].
  destruct (decide (k = k0)) as [->|Hne]; simpl.
  - intros H. by right.
  - rewrite !elem_of_cons. intros [->|H]; [by left | right; auto].
Qed.

Lemma NoDup_insert k v m :
  NoDup (unordered_map.keys m) → NoDup (unordered_map.keys (unordered_map.insert k v m)).
Proof.
  intros Hnd. unfold unordered_map.insert.
  destruct (unordered_map.find k m) eqn:Hf; [done|].
  unfold unordered_map.keys in *. simpl. apply NoDup_cons. split; [|done].
  by apply find_None.
Qed.

Lemma NoDup_erase k m :
  NoDup (unordered_map.keys m) → NoDup (unordered_map.keys (unordered_map.erase k m)).
Proof.
  unfold unordered_map.keys.
  induction m as [|[k0 v0] m IH]; simpl; [done|].
  intros [Hk0 Hnd]%NoDup_cons.
  destruct (decide (k = k0)) as [->|Hne]; simpl; [done|].
  apply NoDup_cons. split; [|by apply IH].
  intros H. apply Hk0. by apply keys_erase_sub in H.
Qed.

Lemma find_insert_eq k v m :
  unordered_map.find k m = None → unordered_map.find k (unordered_map.insert k v m) = Some v.
Proof.
  intros Hf. unfold unordered_map.insert. rewrite Hf. simpl. by rewrite decide_True.
Qed.

Lemma find_insert_ne k k' v m :
  k ≠ k' → unordered_map.find k (unordered_map.insert k' v m) = unordered_map.find k m.
Proof.
  intros Hne. unfold unordered_map.insert.
  destruct (unordered_map.find k' m); [done|]. simpl. by rewrite decide_False.
Qed.

Lemma find_erase_eq k m :
  NoDup (unordered_map.keys m) → unordered_map.find k (unordered_map.erase k m) = None.
Proof.
  unfold unordered_map.keys.
  induction m as [|[k0 v0] m IH]; simpl; [done|].
  intros [Hk0 Hnd]%NoDup_cons.
  destruct (decide (k = k0)) as [->|Hne]; simpl.
  - by apply find_None.
  - rewrite decide_False by done. by apply IH.
Qed.

Lemma find_erase_ne k k' m :
  k ≠ k' → unordered_map.find k (unordered_map.erase k' m) = unordered_map.find k m.
Proof.
  intros Hne.
  induction m as [|[k0 v0] m IH]; simpl; [done|].
  destruct (decide (k' = k0)) as [->|Hne']; simpl.
  - by rewrite decide_False.
  - destruct (decide (k = k0)); [done | apply IH].
Qed.

Lemma empty_size m : unordered_map.empty m = true ↔ unordered_map.size m = 0.
Proof. destruct m; simpl; split; done. Qed.

End table.

Lemma length_erase {V} k (v : V) (m : unordered_map.t V) :
  unordered_map.find k m = Some v →
  S (length (unordered_map.erase k m)) = length m.
Proof.
  induction m as [|[k' v'] m IH]; simpl; [done|].
  destruct (decide (k = k')) as [->|Hne]; [done|].
  intros Hf. simpl. by rewrite IH.
Qed.


(** Unfolds the atomic actions of a goal. *)
Ltac exec :=
  cbv [run step pbind bind ret gets emit set_functions new_promise assert_that
       dprintf invoke Stack_CallOnModule future_wait_for
       future_status_eqb dumpsys_functions_ trace promises fst snd].

(** ** Sequential execution *)

Lemma run_pbind {A B} (p : Prog A) (f : A → Prog B) w :
  run (pbind p f) w = bind (run p) (λ a, run (f a)) w.
Proof.
  revert w. induction p as [a|C act k IH]; intros w; simpl; [done|].
  unfold bind. destruct (act w); [apply IH | done].
Qed.

Lemma run_Register token func w :
  run (RegisterDumpsysFunction token func) w =
  if unordered_map.is_end (unordered_map.find token (dumpsys_functions_ w))
  then Returned tt {| dumpsys_functions_ :=
                        unordered_map.insert token func (dumpsys_functions_ w);
                      trace := trace w;
                      promises := promises w |}
  else Aborted assert_absent_msg w.
Proof.
  unfold RegisterDumpsysFunction. simpl. unfold bind, gets, assert_that.
  by destruct (unordered_map.find token (dumpsys_functions_ w)).
Qed.

Lemma run_Unregister token w :
  run (UnregisterDumpsysFunction token) w =
  if unordered_map.is_end (unordered_map.find token (dumpsys_functions_ w))
  then Aborted assert_present_msg w
  else Returned tt {| dumpsys_functions_ :=
                        unordered_map.erase token (dumpsys_functions_ w);
                      trace := trace w;
                      promises := promises w |}.
Proof.
  unfold UnregisterDumpsysFunction. simpl. unfold bind, gets, assert_that.
  by destruct (unordered_map.find token (dumpsys_functions_ w)).
Qed.

Lemma run_for_each elems fd w :
  run (for_each elems fd) w =
  Returned tt {| dumpsys_functions_ := dumpsys_functions_ w;
                 trace := trace w ++ ((λ d, Invoke d.1 fd (d.2 fd)) <$> elems);
                 promises := promises w |}.
Proof.
  revert w. induction elems as [|d rest IH]; intros w; simpl.
  - unfold ret. rewrite app_nil_r. by destruct w.
  - unfold bind, invoke, emit. rewrite IH. simpl. by rewrite <- app_assoc.
Qed.

Lemma run_Dump stack fd args w :
  let r := wait_for (completes_after stack) (seconds 1) in
  let w' :=
    {| dumpsys_functions_ := dumpsys_functions_ w;
       trace :=
         trace w ++
         (if unordered_map.empty (dumpsys_functions_ w)
          then [Dprintf fd no_targets_line]
          else Dprintf fd (header_line (unordered_map.size (dumpsys_functions_ w)))
               :: ((λ d, Invoke d.1 fd (d.2 fd)) <$> dumpsys_functions_ w)) ++
         CallOnModule (promises w) fd args (is_running stack)
         :: (if is_running stack
             then [WaitFor (promises w) (seconds 1) r.1 r.2]
             else [Dprintf fd not_loaded_line]);
       promises := S (promises w) |} in
  run (Dump stack fd args) w =
  if is_running stack && negb (future_status_eqb r.2 ready)
  then Aborted assert_wait_msg w'
  else Returned tt w'.
Proof.
  intros r w'. subst w' r. destruct w as [fns tr n]. unfold Dump.
  unfold future_wait_for, Stack_CallOnModule.
  generalize (wait_for (completes_after stack) (seconds 1)). intros [blocked status].
  rewrite run_pbind. unfold bind at 1. simpl run at 1. unfold bind at 1, gets at 1.
  simpl dumpsys_functions_.
  destruct fns as [|d fns].
  - destruct (is_running stack) eqn:Hr, status; exec; simpl;
      by rewrite <- ?app_assoc.
  - simpl unordered_map.empty. cbv iota. cbn [run].
    unfold bind, gets, dprintf, emit. cbn [dumpsys_functions_ trace promises].
    rewrite run_for_each.
    destruct (is_running stack) eqn:Hr, status; exec; simpl;
      by rewrite <- ?app_assoc.
Qed.

(** ** Invariants *)

Section invariants.
Variable I : World → Prop.

Lemma preserves_pbind {A B} (p : Prog A) (f : A → Prog B) :
  preserves I p → (∀ a, preserves I (f a)) → preserves I (pbind p f).
Proof.
  induction p as [a|C act k IH]; simpl; [auto|].
  intros [Hact Hk] Hf. split; [done|]. intros b. by apply IH.
Qed.

Lemma preserves_step {A} (p : Prog A) w :
  preserves I p → I w →
  I (world_of (step p w)) ∧ ∀ p' w', step p w = Returned p' w' → preserves I p'.
Proof.
  destruct p as [a|C act k]; simpl.
  - intros _ Hw. split; [done|]. unfold ret. by intros p' w' [= <- <-].
  - intros [Hact Hk] Hw. unfold bind. specialize (Hact w Hw).
    destruct (act w) as [b w1|msg w1]; simpl in *.
    + split; [done|]. unfold ret. intros p' w' [= <- <-]. apply Hk.
    + split; [done|]. intros; discriminate.
Qed.

Lemma preserves_run_steps {A} n (p : Prog A) w :
  preserves I p → I w → I (world_of (run_steps n p w)).
Proof.
  revert p w. induction n as [|n IH]; intros p w Hp Hw; simpl; [done|].
  unfold bind. destruct (preserves_step p w Hp Hw) as [H1 H2].
  destruct (step p w) as [p' w'|msg w'] eqn:Hs; simpl in *; [|done].
  apply IH; [by eapply H2 | done].
Qed.

Lemma preserves_run {A} (p : Prog A) w :
  preserves I p → I w → I (world_of (run p w)).
Proof.
  revert w. induction p as [a|C act k IH]; simpl; intros w; [done|].
  intros [Hact Hk] Hw. unfold bind. specialize (Hact w Hw).
  destruct (act w) as [b w1|msg w1]; simpl in *; [by apply IH | done].
Qed.

End invariants.

Lemma unique_keys_Register token func :
  preserves unique_keys (RegisterDumpsysFunction token func).
Proof.
  unfold RegisterDumpsysFunction. simpl. repeat split; try done.
  - intros w Hw. exec. by destruct (unordered_map.is_end _).
  - intros w Hw. unfold unique_keys in *. simpl. by apply NoDup_insert.
Qed.

Lemma unique_keys_Unregister token :
  preserves unique_keys (UnregisterDumpsysFunction token).
Proof.
  unfold UnregisterDumpsysFunction. simpl. repeat split; try done.
  - intros w Hw. exec. by destruct (negb _).
  - intros w Hw. unfold unique_keys in *. simpl. by apply NoDup_erase.
Qed.

Lemma unique_keys_for_each elems fd : preserves unique_keys (for_each elems fd).
Proof. induction elems as [|d rest IH]; simpl; [done|]. split; [done|]. by intros _. Qed.

Lemma unique_keys_Dump stack fd args : preserves unique_keys (Dump stack fd args).
Proof.
  unfold Dump. apply preserves_pbind.
  - simpl. split; [done|]. intros [|]; simpl; repeat split; try done.
    intros elems. apply unique_keys_for_each.
  - intros _. simpl. split; [done|]. intros promise. split; [done|].
    intros [|]; simpl; repeat split; try done.
    intros w Hw. unfold future_wait_for.
    destruct (wait_for _ _) as [blocked status]. exec. by destruct status.
Qed.

Lemma unique_keys_call op : preserves unique_keys (call op).
Proof.
  destruct op; simpl;
    [apply unique_keys_Register | apply unique_keys_Unregister | apply unique_keys_Dump].
Qed.

Lemma unique_keys_calls ops : preserves unique_keys (calls ops).
Proof.
  induction ops as [|op rest IH]; simpl; [done|].
  apply preserves_pbind; [apply unique_keys_call | by intros _].
Qed.

Lemma unique_keys_initial : unique_keys initial.
Proof. unfold unique_keys, initial. simpl. apply NoDup_nil_2. Qed.


(** C7. At every point of every sequence of Register, Unregister and Dump
    calls (after any number of atomic actions of the sequence, so also in the
    middle of a call) a token is associated with at most one handler: two
    elements of the table with the same token have the same handler. *)
Theorem at_most_one_handler_per_token (ops : list Op) (n : nat)
    (token : Token) (func func' : DumpsysFunction) :
  let w := world_of (run_steps n (calls ops) initial) in
  (token, func) ∈ dumpsys_functions_ w →
  (token, func') ∈ dumpsys_functions_ w →
  func = func'.
Proof.
  intros w Hin Hin'.
  assert (unique_keys w) as Hnd.
  { apply preserves_run_steps; [apply unique_keys_calls | apply unique_keys_initial]. }
  apply (elem_find _ _ _ Hnd) in Hin, Hin'. congruence.
Qed.

(** ** Membership after a sequence of calls *)

Lemma most_recent_concerns token ops op :
  most_recent token ops = Some op → concerns token op = true.
Proof.
  induction ops as [|op' rest IH]; simpl; [done|].
  destruct (most_recent token rest) as [later|].
  - intros [= ->]. by apply IH.
  - destruct (concerns token op') eqn:Hc; [by intros [= <-] | done].
Qed.

Lemma find_after_calls ops w w' token :
  unique_keys w →
  run (calls ops) w = Returned tt w' →
  unordered_map.find token (dumpsys_functions_ w') =
  match most_recent token ops with
  | Some (OpRegister _ func) => Some func
  | Some _ => None
  | None => unordered_map.find token (dumpsys_functions_ w)
  end.
Proof.
  revert w. induction ops as [|op rest IH]; intros w Hnd; simpl.
  - unfold ret. by intros [= <-].
  - rewrite run_pbind. unfold bind.
    pose proof (preserves_run unique_keys (call op) w (unique_keys_call op) Hnd) as Hnd1.
    destruct (run (call op) w) as [[] w1|msg w1] eqn:Hop; [|done].
    intros Hrest. rewrite (IH w1 Hnd1 Hrest).
    destruct (most_recent token rest) as [later|]; [done|].
    destruct op as [t f|t|stack fd args]; cbn [call] in Hop; cbn [concerns].
    + rewrite run_Register in Hop.
      destruct (unordered_map.find t (dumpsys_functions_ w)) eqn:Hf; simpl in Hop; [done|].
      injection Hop as <-. simpl. case_bool_decide as Ht.
      * subst t. by apply find_insert_eq.
      * apply find_insert_ne. congruence.
    + rewrite run_Unregister in Hop.
      destruct (unordered_map.find t (dumpsys_functions_ w)) eqn:Hf; simpl in Hop; [|done].
      injection Hop as <-. simpl. case_bool_decide as Ht.
      * subst t. by apply find_erase_eq.
      * apply find_erase_ne. congruence.
    + rewrite run_Dump in Hop.
      destruct (_ && _); [done|]. by injection Hop as <-.
Qed.

(** C5. After a sequence of calls that all succeed, started in the initial
    (empty) registry, a token is registered exactly when the most recent
    Register or Unregister call made with it is a Register.  (Success already
    excludes registering a token that is still registered.) *)
Theorem membership_is_net_effect (ops : list Op) (w' : World) (token : Token) :
  run (calls ops) initial = Returned tt w' →
  is_Some (unordered_map.find token (dumpsys_functions_ w')) ↔
  ∃ func, most_recent token ops = Some (OpRegister token func).
Proof.
  intros Hrun.
  rewrite (find_after_calls ops initial w' token unique_keys_initial Hrun).
  destruct (most_recent token ops) as [[t f|t|stack fd args]|] eqn:Hm; simpl.
  - apply most_recent_concerns in Hm. simpl in Hm. apply bool_decide_eq_true in Hm.
    subst t. split; eauto.
  - split; [by intros [? ?] | by intros [? ?]].
  - split; [by intros [? ?] | by intros [? ?]].
  - split; [by intros [? ?] | by intros [? ?]].
Qed.

(** ** Misuse of the registry *)

(** C3. Register with a token that is in the registry, and Unregister with a
    token that is not, abort the process at the assertion, leaving the world
    as it was; nothing that follows the call is executed. *)
Theorem misuse_is_fatal (token : Token) (w : World) :
  (is_Some (unordered_map.find token (dumpsys_functions_ w)) →
   ∀ func,
     run (RegisterDumpsysFunction token func) w = Aborted assert_absent_msg w ∧
     ∀ rest : Prog unit,
       run (RegisterDumpsysFunction token func ;;; rest) w = Aborted assert_absent_msg w) ∧
  (unordered_map.find token (dumpsys_functions_ w) = None →
   run (UnregisterDumpsysFunction token) w = Aborted assert_present_msg w ∧
   ∀ rest : Prog unit,
     run (UnregisterDumpsysFunction token ;;; rest) w = Aborted assert_present_msg w).
Proof.
  split.
  - intros [f Hf] func.
    assert (run (RegisterDumpsysFunction token func) w = Aborted assert_absent_msg w) as H.
    { rewrite run_Register, Hf. done. }
    split; [done|]. intros rest. rewrite run_pbind. unfold bind. by rewrite H.
  - intros Hf.
    assert (run (UnregisterDumpsysFunction token) w = Aborted assert_present_msg w) as H.
    { rewrite run_Unregister, Hf. done. }
    split; [done|]. intros rest. rewrite run_pbind. unfold bind. by rewrite H.
Qed.

(** ** What one Dump call does *)

Lemma since_app w fns new n :
  since w {| dumpsys_functions_ := fns; trace := trace w ++ new; promises := n |} = new.
Proof. unfold since. simpl. by rewrite drop_app_length. Qed.

Lemma Dump_since stack fd args w :
  since w (world_of (run (Dump stack fd args) w)) =
  ((if unordered_map.empty (dumpsys_functions_ w)
    then [Dprintf fd no_targets_line]
    else Dprintf fd (header_line (unordered_map.size (dumpsys_functions_ w)))
         :: ((λ d, Invoke d.1 fd (d.2 fd)) <$> dumpsys_functions_ w)) ++
   CallOnModule (promises w) fd args (is_running stack)
   :: (if is_running stack
       then [WaitFor (promises w) (seconds 1)
               (wait_for (completes_after stack) (seconds 1)).1
               (wait_for (completes_after stack) (seconds 1)).2]
       else [Dprintf fd not_loaded_line]))%list.
Proof.
  rewrite run_Dump. destruct (_ && _); simpl world_of; apply since_app.
Qed.

Lemma Dump_returns stack fd args w :
  returns (run (Dump stack fd args) w) =
  negb (is_running stack) ||
  future_status_eqb (wait_for (completes_after stack) (seconds 1)).2 ready.
Proof.
  rewrite run_Dump. destruct (is_running stack); simpl; [|done].
  by destruct (future_status_eqb _ ready).
Qed.

Lemma wait_for_ready signal bound :
  future_status_eqb (wait_for signal bound).2 ready = true ↔
  ∃ t, signal = Some t ∧ (t ≤ bound)%N.
Proof.
  unfold wait_for. destruct signal as [t|]; simpl.
  - destruct (N.leb_spec t bound) as [Hle|Hgt]; simpl.
    + split; [eauto | done].
    + split; [done | intros (t' & [= <-] & Hle); lia].
  - split; [done | by intros (t' & [=] & _)].
Qed.

Lemma wait_for_blocked signal bound : ((wait_for signal bound).1 ≤ bound)%N.
Proof.
  unfold wait_for. destruct signal as [t|]; simpl; [|lia].
  destruct (N.leb_spec t bound); simpl; lia.
Qed.

Lemma count_app P l1 l2 : count P (l1 ++ l2) = count P l1 + count P l2.
Proof. unfold count. by rewrite filter_app, length_app. Qed.

Lemma count_cons P e l : count P (e :: l) = (if P e then 1 else 0) + count P l.
Proof.
  unfold count. rewrite filter_cons. destruct (P e) eqn:He.
  - by rewrite decide_True.
  - by rewrite decide_False.
Qed.

Lemma count_invocations P fd (elems : list (Token * DumpsysFunction)) :
  (∀ token text, P (Invoke token fd text) = false) →
  count P ((λ d, Invoke d.1 fd (d.2 fd)) <$> elems) = 0.
Proof.
  intros HP. induction elems as [|d rest IH]; [done|].
  rewrite fmap_cons, count_cons, HP, IH. done.
Qed.




Lemma header_is_not_the_note count : header_line count ≠ not_loaded_line.
Proof.
  unfold header_line, not_loaded_line, kModuleName.
  cbn [String.append]. intros H. discriminate H.
Qed.

Lemma no_targets_is_not_the_note : no_targets_line ≠ not_loaded_line.
Proof. intros H. discriminate H. Qed.


(** C6. A Dump call made while the registry is empty writes the one line
    that says no targets are registered, invokes no handler, and goes on to the
    module call: the submission, followed by the wait of at most 1000 ms when
    it is accepted and by the not-loaded note when it is not. *)
Theorem Dump_on_empty_registry (stack : Stack) (fd : Fd) (args : Args) (w : World) :
  unordered_map.empty (dumpsys_functions_ w) = true →
  let new := since w (world_of (run (Dump stack fd args) w)) in
  new = (Dprintf fd "shim::legacy::dumpsys No registered dumpsys shim legacy targets
"
         :: CallOnModule (promises w) fd args (is_running stack)
         :: (if is_running stack
             then [WaitFor (promises w) 1000%N
                     (wait_for (completes_after stack) 1000%N).1
                     (wait_for (completes_after stack) 1000%N).2]
             else [Dprintf fd "shim::legacy::dumpsys NOTE: gd dumpsys module not loaded or started
"]))%list ∧
  count (prints "shim::legacy::dumpsys No registered dumpsys shim legacy targets
") new = 1 ∧
  count is_invoke new = 0.
Proof.
  intros He new. subst new. rewrite Dump_since, He. simpl app.
  split; [done|].
  rewrite !count_cons. destruct (is_running stack); by vm_compute.
Qed.


(** C4. When the submission is refused, Dump returns normally; after the
    local part it adds the submission and then the line that notes that the
    module is not loaded or started, which is printed once, and it never
    waits. *)
Theorem Dump_module_absent (stack : Stack) (fd : Fd) (args : Args) (w : World) :
  is_running stack = false →
  let o := run (Dump stack fd args) w in
  let new := since w (world_of o) in
  o = Returned tt (world_of o) ∧
  (∃ local, new = (local ++ [CallOnModule (promises w) fd args false;
                             Dprintf fd "shim::legacy::dumpsys NOTE: gd dumpsys module not loaded or started
"])%list) ∧
  count (prints "shim::legacy::dumpsys NOTE: gd dumpsys module not loaded or started
") new = 1 ∧
  count is_wait new = 0.
Proof.
  intros Hr o new. subst o new.
  change "shim::legacy::dumpsys NOTE: gd dumpsys module not loaded or started
" with not_loaded_line.
  rewrite Dump_since, Hr. split; [|split; [|split]].
  - rewrite run_Dump, Hr. done.
  - eauto.
  - rewrite count_app, !count_cons.
    replace (prints not_loaded_line (Dprintf fd not_loaded_line)) with true
      by (symmetry; apply bool_decide_eq_true_2; reflexivity).
    destruct (unordered_map.empty _).
    + rewrite count_cons. cbn [prints].
      by rewrite (bool_decide_eq_false_2 _ no_targets_is_not_the_note).
    + rewrite count_cons, count_invocations by done. cbn [prints].
      by rewrite (bool_decide_eq_false_2 _ (header_is_not_the_note _)).
  - rewrite count_app, !count_cons. simpl.
    destruct (unordered_map.empty _).
    + done.
    + by rewrite count_cons, count_invocations.
Qed.

(** C1, as the code has it.  When the submission is accepted, Dump waits
    once, on the promise of this call, with a bound of 1000 ms, and is blocked
    for no longer than the bound.  It returns normally exactly when the future
    is ready within the bound, which is when the promise is given its value
    or is destroyed without one by then; otherwise, and so when the promise is
    kept and never given a value, it aborts with the timeout assertion. *)
Theorem Dump_returns_iff_ready_within_a_second
    (stack : Stack) (fd : Fd) (args : Args) (w : World) :
  is_running stack = true →
  let o := run (Dump stack fd args) w in
  (∃ blocked status,
     last (trace (world_of o)) = Some (WaitFor (promises w) 1000%N blocked status) ∧
     (blocked ≤ 1000)%N ∧
     count is_wait (since w (world_of o)) = 1) ∧
  (returns o = true ↔
   ∃ t, (promise_fate stack = SetValue t ∨ promise_fate stack = Destroyed t) ∧
        (t ≤ 1000)%N) ∧
  (returns o = false →
   o = Aborted "Timed out waiting for dumpsys to complete" (world_of o)) ∧
  (promise_fate stack = Kept →
   o = Aborted "Timed out waiting for dumpsys to complete" (world_of o)).
Proof.
  intros Hr o. change 1000%N with (seconds 1).
  change "Timed out waiting for dumpsys to complete" with assert_wait_msg.
  assert (returns o = future_status_eqb (wait_for (completes_after stack) (seconds 1)).2 ready)
    as Hret.
  { subst o. by rewrite Dump_returns, Hr. }
  assert (returns o = false → o = Aborted assert_wait_msg (world_of o)) as Habort.
  { subst o. rewrite run_Dump. by destruct (_ && _). }
  split; [|split; [|split]].
  - eexists _, _. split; [|split].
    + subst o. rewrite run_Dump, Hr.
      destruct (_ && _); simpl; by rewrite app_assoc, last_app_cons.
    + apply wait_for_blocked.
    + subst o. rewrite Dump_since, Hr, count_app, !count_cons. simpl.
      destruct (unordered_map.empty _); [done|].
      by rewrite count_cons, count_invocations.
  - rewrite Hret, wait_for_ready. unfold completes_after.
    destruct (promise_fate stack) as [t|t|]; split.
    + intros (t' & [= <-] & Hle). eauto.
    + intros (t' & [[= <-]|[=]] & Hle). eauto.
    + intros (t' & [= <-] & Hle). eauto.
    + intros (t' & [[=]|[= <-]] & Hle). eauto.
    + by intros (t' & [=] & _).
    + by intros (t' & [[=]|[=]] & _).
  - done.
  - intros Hkept. apply Habort. rewrite Hret. unfold completes_after.
    by rewrite Hkept.
Qed.

(** C1, as stated, fails.  The module accepts the submission and its Dump
    lets go of the promise at once without giving it a value: the closure
    never signals completion, the future is ready all the same, and Dump
    returns normally. *)
Lemma Dump_returns_when_the_promise_is_destroyed :
  ¬ (∀ (stack : Stack) (fd : Fd) (args : Args) (w : World),
       is_running stack = true →
       signals_completion (promise_fate stack) = false →
       returns (run (Dump stack fd args) w) = false).
Proof.
  intros H.
  specialize (H (mkStack true (Destroyed 0%N)) 3%Z [] initial eq_refl eq_refl).
  discriminate H.
Qed.

(** ** Dump and the registry *)

(** With handlers that only write, no atomic action of Dump changes the
    table. *)
Lemma Dump_keeps_functions (m : unordered_map.t DumpsysFunction) stack fd args :
  preserves (λ w, dumpsys_functions_ w = m) (Dump stack fd args).
Proof.
  unfold Dump. apply preserves_pbind.
  - simpl. split; [done|]. intros [|]; simpl; repeat split; try done.
    intros elems. induction elems as [|d rest IH]; simpl; [done|].
    split; [done|]. by intros _.
  - intros _. simpl. split; [done|]. intros promise. split; [done|].
    intros [|]; simpl; repeat split; try done.
    intros w Hw. unfold future_wait_for.
    destruct (wait_for _ _) as [blocked status]. exec. by destruct status.
Qed.

(** ** Dump with handlers that call back *)







(** With handlers that only write, Dump of the module [reentrant] is the
    Dump of the first part of this file. *)
Lemma for_each_quiet_world (pending : list (Token * DumpsysFunction)) fd
    (w : reentrant.World) :
  (∀ d, d ∈ pending →
     unordered_map.find d.1 (reentrant.dumpsys_functions_ w) ≠ None) →
  reentrant.for_each ((λ d, (d.1, quiet d.2)) <$> pending) fd w =
  reentrant.Returned
    {| reentrant.dumpsys_functions_ := reentrant.dumpsys_functions_ w;
       reentrant.trace :=
         reentrant.trace w ++ ((λ d, Invoke d.1 fd (d.2 fd)) <$> pending);
       reentrant.promises := reentrant.promises w |}.
Proof.
  revert w. induction pending as [|[t f] rest IH]; intros w Hin.
  - cbn. rewrite app_nil_r. by destruct w.
  - rewrite fmap_cons. cbn [reentrant.for_each fst snd].
    assert (unordered_map.find t (reentrant.dumpsys_functions_ w) ≠ None) as Ht
      by (apply (Hin (t, f)); left).
    destruct (unordered_map.find t (reentrant.dumpsys_functions_ w)) eqn:Hf; [|done].
    cbn [unordered_map.is_end]. unfold reentrant.invoke, reentrant.registers, quiet.
    cbn [reentrant.calls_of reentrant.text_of reentrant.callbacks existsb orb
         reentrant.emit reentrant.dumpsys_functions_].
    rewrite Hf. cbn [unordered_map.is_end].
    rewrite IH.
    + cbn. by rewrite <- app_assoc.
    + intros d Hd. cbn. apply Hin. by right.
Qed.

Lemma find_quiet_world token (m : unordered_map.t DumpsysFunction) :
  unordered_map.find token ((λ d, (d.1, quiet d.2)) <$> m) =
  quiet <$> unordered_map.find token m.
Proof.
  induction m as [|[k f] m IH]; [done|].
  rewrite fmap_cons. cbn. by destruct (decide (token = k)).
Qed.

Lemma reentrant_Dump_of_quiet_handlers stack fd args w :
  reentrant.Dump stack fd args (quiet_world w) =
  quiet_outcome (run (Dump stack fd args) w).
Proof.
  destruct w as [fns tr n]. rewrite run_Dump. unfold reentrant.Dump, quiet_world.
  cbn [dumpsys_functions_ trace promises
       reentrant.dumpsys_functions_ reentrant.trace reentrant.promises].
  assert (unordered_map.empty ((λ d, (d.1, quiet d.2)) <$> fns) =
          unordered_map.empty fns) as -> by (by destruct fns).
  unfold unordered_map.size. rewrite length_fmap.
  destruct (unordered_map.empty fns) eqn:He.
  - destruct (is_running stack); cbn; [destruct (future_status_eqb _ _)|];
      unfold reentrant.emit, quiet_world; cbn; by rewrite <- ?app_assoc.
  - rewrite for_each_quiet_world.
    + destruct (is_running stack); cbn; [destruct (future_status_eqb _ _)|];
        unfold reentrant.emit, quiet_world; cbn; by rewrite <- ?app_assoc.
    + intros e Hin. cbn. rewrite find_quiet_world.
      destruct (unordered_map.find e.1 fns) eqn:Hf; [done|].
      apply find_None in Hf. destruct Hf.
      by apply (list_elem_of_fmap_2 fst _ e).
Qed.

(** ** Promises *)

Lemma promises_constructed_call op w w' :
  run (call op) w = Returned tt w' → promises_constructed w → promises_constructed w'.
Proof.
  destruct op as [t f|t|stack fd args]; cbn [call].
  - rewrite run_Register. destruct (unordered_map.is_end _); [|done].
    by intros [= <-].
  - rewrite run_Unregister. destruct (unordered_map.is_end _); [done|].
    by intros [= <-].
  - rewrite run_Dump. destruct (_ && _); [done|]. intros [= <-] Hw e promise.
    cbn [trace promises]. rewrite !elem_of_app, elem_of_cons.
    intros [Hin|[Hin|[->|Hin]]] He.
    + specialize (Hw e promise Hin He). lia.
    + destruct (unordered_map.empty _).
      * apply list_elem_of_singleton in Hin as ->. done.
      * apply elem_of_cons in Hin as [->|Hin]; [done|].
        apply list_elem_of_fmap in Hin as (d & -> & _). done.
    + injection He as <-. lia.
    + destruct (is_running stack); apply list_elem_of_singleton in Hin as ->; [|done].
      injection He as <-. lia.
Qed.

Lemma promises_constructed_calls ops w w' :
  run (calls ops) w = Returned tt w' → promises_constructed w → promises_constructed w'.
Proof.
  revert w. induction ops as [|op rest IH]; intros w; simpl.
  - unfold ret. by intros [= <-].
  - rewrite run_pbind. unfold bind.
    destruct (run (call op) w) as [[] w1|msg w1] eqn:Hop; [|done].
    intros Hrest Hw. apply (IH w1 Hrest). by apply (promises_constructed_call op w).
Qed.

Lemma promises_constructed_reachable w : reachable w → promises_constructed w.
Proof.
  intros [ops Hops]. apply (promises_constructed_calls ops initial w Hops).
  intros e promise Hin. by apply elem_of_nil in Hin.
Qed.

(** C10. Every Dump call, whatever the registry holds, makes exactly one
    submission to the module.  The promise it hands over is constructed by
    this call: no earlier event of the process names it, and the next promise
    constructed is another one. *)
Theorem Dump_submits_exactly_once (stack : Stack) (fd : Fd) (args : Args) (w : World) :
  reachable w →
  let w' := world_of (run (Dump stack fd args) w) in
  count is_submission (since w w') = 1 ∧
  CallOnModule (promises w) fd args (is_running stack) ∈ since w w' ∧
  (∀ e, e ∈ trace w → promise_of e ≠ Some (promises w)) ∧
  promises w' = S (promises w).
Proof.
  intros Hw w'. subst w'. rewrite Dump_since. split; [|split; [|split]].
  - rewrite count_app, !count_cons.
    destruct (unordered_map.empty _), (is_running stack);
      rewrite ?count_cons, ?count_invocations; done.
  - apply elem_of_app. right. left.
  - intros e Hin He. apply promises_constructed_reachable in Hw.
    specialize (Hw e _ Hin He). lia.
  - rewrite run_Dump. by destruct (_ && _).
Qed.

(** ** Two threads *)











(** ** Runs on small inputs *)

Example header_line_2 :
  header_line 2 = "shim::legacy::dumpsys Dumping shim legacy targets:2" +:+ newline.
Proof. reflexivity. Qed.

Example Dump_two_handlers :
  trace (world_of (run (calls [OpRegister 7%N (λ _, "one"); OpRegister 9%N (λ _, "two");
                               OpDump (mkStack true (SetValue 5%N)) 3%Z ["-a"]]) initial)) =
  [Dprintf 3%Z (header_line 2); Invoke 9%N 3%Z "two"; Invoke 7%N 3%Z "one";
   CallOnModule 0 3%Z ["-a"] true; WaitFor 0 1000%N 5%N ready].
Proof. reflexivity. Qed.

Example Dump_late_module :
  run (Dump (mkStack true (SetValue 1001%N)) 3%Z []) initial =
  Aborted assert_wait_msg
    {| dumpsys_functions_ := [];
       trace := [Dprintf 3%Z no_targets_line; CallOnModule 0 3%Z [] true;
                 WaitFor 0 1000%N 1000%N timeout];
       promises := 1 |}.
Proof. reflexivity. Qed.

Example Register_twice :
  run (calls [OpRegister 7%N (λ _, "one"); OpRegister 7%N (λ _, "two")]) initial =
  Aborted assert_absent_msg
    {| dumpsys_functions_ := [(7%N, λ _, "one")]; trace := []; promises := 0 |}.
Proof. reflexivity. Qed.

(** The handler under token 7 unregisters token 9 before the loop comes to
    it: the header says 2, one handler is invoked, one registration is left. *)
Example Dump_with_a_handler_that_unregisters :
  reentrant.Dump (mkStack false Kept) 3%Z []
    {| reentrant.dumpsys_functions_ :=
         [(7%N, reentrant.handler (λ _, "seven") [reentrant.Unregister 9%N]);
          (9%N, reentrant.handler (λ _, "nine") [])];
       reentrant.trace := [];
       reentrant.promises := 0 |} =
  reentrant.Returned
    {| reentrant.dumpsys_functions_ :=
         [(7%N, reentrant.handler (λ _, "seven") [reentrant.Unregister 9%N])];
       reentrant.trace :=
         [Dprintf 3%Z (header_line 2); Invoke 7%N 3%Z "seven";
          CallOnModule 0 3%Z [] false; Dprintf 3%Z not_loaded_line];
       reentrant.promises := 1 |}.
Proof. reflexivity. Qed.

(** A handler that unregisters itself takes the element away from under the
    loop's iterator. *)
Example Dump_with_a_handler_that_unregisters_itself :
  reentrant.Dump (mkStack false Kept) 3%Z []
    {| reentrant.dumpsys_functions_ :=
         [(7%N, reentrant.handler (λ _, "seven") [reentrant.Unregister 7%N])];
       reentrant.trace := [];
       reentrant.promises := 0 |} =
  reentrant.Unspecified
    {| reentrant.dumpsys_functions_ := [];
       reentrant.trace := [Dprintf 3%Z (header_line 1); Invoke 7%N 3%Z "seven"];
       reentrant.promises := 0 |}.
Proof. reflexivity. Qed.

(** A promise destroyed without a value makes the future ready. *)
Example Dump_with_a_destroyed_promise :
  run (Dump (mkStack true (Destroyed 0%N)) 3%Z []) initial =
  Returned tt
    {| dumpsys_functions_ := [];
       trace := [Dprintf 3%Z no_targets_line; CallOnModule 0 3%Z [] true;
                 WaitFor 0 1000%N 0%N ready];
       promises := 1 |}.
Proof. reflexivity. Qed.

(** ** The theorems at concrete inputs *)

Lemma at_most_one_handler_per_token_witness :
  let func : DumpsysFunction := λ _, "one" in
  let ops := [OpRegister 7%N func; OpRegister 9%N (λ _, "two")] in
  let w := world_of (run_steps 4 (calls ops) initial) in
  (7%N, func) ∈ dumpsys_functions_ w ∧ func = func.
Proof.
  intros func ops w.
  assert ((7%N, func) ∈ dumpsys_functions_ w) as Hin.
  { vm_compute. right. left. }
  split; [exact Hin|].
  exact (at_most_one_handler_per_token ops 4 7%N func func Hin Hin).
Defined.

Lemma membership_is_net_effect_witness :
  let ops := [OpRegister 7%N (λ _, "one"); OpRegister 9%N (λ _, "two");
              OpUnregister 7%N; OpDump (mkStack true (SetValue 5%N)) 3%Z []] in
  let w' := world_of (run (calls ops) initial) in
  run (calls ops) initial = Returned tt w' ∧
  (is_Some (unordered_map.find 9%N (dumpsys_functions_ w')) ↔
   ∃ func, most_recent 9%N ops = Some (OpRegister 9%N func)).
Proof.
  intros ops w'.
  assert (run (calls ops) initial = Returned tt w') as Hrun by reflexivity.
  split; [exact Hrun|].
  exact (membership_is_net_effect ops w' 9%N Hrun).
Defined.

Lemma misuse_is_fatal_witness :
  let func : DumpsysFunction := λ _, "one" in
  let w := {| dumpsys_functions_ := [(7%N, func)]; trace := []; promises := 0 |} in
  is_Some (unordered_map.find 7%N (dumpsys_functions_ w)) ∧
  unordered_map.find 9%N (dumpsys_functions_ w) = None ∧
  run (RegisterDumpsysFunction 7%N func) w = Aborted assert_absent_msg w ∧
  run (UnregisterDumpsysFunction 9%N) w = Aborted assert_present_msg w.
Proof.
  intros func w.
  assert (is_Some (unordered_map.find 7%N (dumpsys_functions_ w))) as H7.
  { exists func. reflexivity. }
  assert (unordered_map.find 9%N (dumpsys_functions_ w) = None) as H9 by reflexivity.
  split; [exact H7|]. split; [exact H9|]. split.
  - exact (proj1 (proj1 (misuse_is_fatal 7%N w) H7 func)).
  - exact (proj1 (proj2 (misuse_is_fatal 9%N w) H9)).
Defined.

Lemma Dump_on_empty_registry_witness :
  let stack := mkStack false Kept in
  unordered_map.empty (dumpsys_functions_ initial) = true ∧
  since initial (world_of (run (Dump stack 3%Z []) initial)) =
    [Dprintf 3%Z "shim::legacy::dumpsys No registered dumpsys shim legacy targets
";
     CallOnModule 0 3%Z [] false;
     Dprintf 3%Z "shim::legacy::dumpsys NOTE: gd dumpsys module not loaded or started
"].
Proof.
  intros stack.
  assert (unordered_map.empty (dumpsys_functions_ initial) = true) as He by reflexivity.
  split; [exact He|].
  exact (proj1 (Dump_on_empty_registry stack 3%Z [] initial He)).
Defined.


Lemma Dump_module_absent_witness :
  let stack := mkStack false Kept in
  let o := run (Dump stack 3%Z []) initial in
  is_running stack = false ∧
  o = Returned tt (world_of o) ∧
  count (prints "shim::legacy::dumpsys NOTE: gd dumpsys module not loaded or started
") (since initial (world_of o)) = 1 ∧
  count is_wait (since initial (world_of o)) = 0.
Proof.
  intros stack o.
  assert (is_running stack = false) as Hr by reflexivity.
  split; [exact Hr|].
  destruct (Dump_module_absent stack 3%Z [] initial Hr) as (Hret & _ & Hnote & Hwait).
  split; [exact Hret|]. split; [exact Hnote | exact Hwait].
Defined.

Lemma Dump_returns_iff_ready_within_a_second_witness :
  let stack := mkStack true Kept in
  let o := run (Dump stack 3%Z []) initial in
  is_running stack = true ∧
  promise_fate stack = Kept ∧
  o = Aborted "Timed out waiting for dumpsys to complete" (world_of o).
Proof.
  intros stack o.
  assert (is_running stack = true) as Hr by reflexivity.
  assert (promise_fate stack = Kept) as Hkept by reflexivity.
  split; [exact Hr|]. split; [exact Hkept|].
  destruct (Dump_returns_iff_ready_within_a_second stack 3%Z [] initial Hr)
    as (_ & _ & _ & H).
  exact (H Hkept).
Defined.



Lemma Dump_submits_exactly_once_witness :
  let w := {| dumpsys_functions_ := [(7%N, λ _, "one")]; trace := []; promises := 0 |} in
  reachable w ∧
  count is_submission (since w (world_of (run (Dump (mkStack false Kept) 3%Z []) w))) = 1.
Proof.
  intros w.
  assert (reachable w) as Hw.
  { exists [OpRegister 7%N (λ _, "one")]. reflexivity. }
  split; [exact Hw|].
  exact (proj1 (Dump_submits_exactly_once (mkStack false Kept) 3%Z [] w Hw)).
Defined.

(** * Further properties of the three functions *)

(** ** Register and Unregister on the table *)

(** X1. Register with a token that is not in the registry returns; afterwards
    the token is found with the handler given, every other token is found as
    before, the table has one element more, and nothing was printed. *)
Theorem Register_inserts (token : Token) (func : DumpsysFunction) (w : World) :
  unordered_map.find token (dumpsys_functions_ w) = None →
  let o := run (RegisterDumpsysFunction token func) w in
  returns o = true ∧
  unordered_map.find token (dumpsys_functions_ (world_of o)) = Some func ∧
  (∀ k, k ≠ token →
     unordered_map.find k (dumpsys_functions_ (world_of o)) =
     unordered_map.find k (dumpsys_functions_ w)) ∧
  unordered_map.size (dumpsys_functions_ (world_of o)) =
    S (unordered_map.size (dumpsys_functions_ w)) ∧
  trace (world_of o) = trace w.
Proof.
  intros Hf o. subst o. rewrite run_Register, Hf. simpl.
  split; [done|]. split; [by apply find_insert_eq|].
  split; [intros k Hk; by apply find_insert_ne|].
  split; [|done]. unfold unordered_map.insert. by rewrite Hf.
Qed.

(** X2. Unregister with a token that is in the registry returns; afterwards
    the token is not found, every other token is found as before, the table
    has one element less, and nothing was printed. *)
Theorem Unregister_erases (token : Token) (w : World) :
  unique_keys w →
  is_Some (unordered_map.find token (dumpsys_functions_ w)) →
  let o := run (UnregisterDumpsysFunction token) w in
  returns o = true ∧
  unordered_map.find token (dumpsys_functions_ (world_of o)) = None ∧
  (∀ k, k ≠ token →
     unordered_map.find k (dumpsys_functions_ (world_of o)) =
     unordered_map.find k (dumpsys_functions_ w)) ∧
  S (unordered_map.size (dumpsys_functions_ (world_of o))) =
    unordered_map.size (dumpsys_functions_ w) ∧
  trace (world_of o) = trace w.
Proof.
  intros Hnd [func Hf] o. subst o. rewrite run_Unregister, Hf. simpl.
  split; [done|]. split; [by apply find_erase_eq|].
  split; [intros k Hk; by apply find_erase_ne|].
  split; [|done]. by apply (length_erase token func).
Qed.

(** X3. Register followed by Unregister of the same token, the token not
    being registered before, returns and leaves the registry as it was: every
    token is found as before and the size is the same; nothing was printed. *)
Theorem Register_Unregister_round_trip
    (token : Token) (func : DumpsysFunction) (w : World) :
  unordered_map.find token (dumpsys_functions_ w) = None →
  let o := run (RegisterDumpsysFunction token func ;;;
                UnregisterDumpsysFunction token) w in
  returns o = true ∧
  (∀ k, unordered_map.find k (dumpsys_functions_ (world_of o)) =
        unordered_map.find k (dumpsys_functions_ w)) ∧
  unordered_map.size (dumpsys_functions_ (world_of o)) =
    unordered_map.size (dumpsys_functions_ w) ∧
  trace (world_of o) = trace w.
Proof.
  intros Hf o. subst o. rewrite run_pbind. unfold bind.
  rewrite run_Register, Hf. cbn [unordered_map.is_end].
  rewrite run_Unregister. cbn [dumpsys_functions_ trace promises].
  rewrite (find_insert_eq token func _ Hf). cbn [unordered_map.is_end].
  unfold unordered_map.insert. rewrite Hf. simpl. rewrite decide_True by done.
  done.
Qed.

(** X4. A handler is replaced by Unregister followed by Register: for a
    registered token the two calls return, the token is then found with the
    new handler, every other token as before, and the size is the same. *)
Theorem Unregister_Register_replaces
    (token : Token) (func' : DumpsysFunction) (w : World) :
  unique_keys w →
  is_Some (unordered_map.find token (dumpsys_functions_ w)) →
  let o := run (UnregisterDumpsysFunction token ;;;
                RegisterDumpsysFunction token func') w in
  returns o = true ∧
  unordered_map.find token (dumpsys_functions_ (world_of o)) = Some func' ∧
  (∀ k, k ≠ token →
     unordered_map.find k (dumpsys_functions_ (world_of o)) =
     unordered_map.find k (dumpsys_functions_ w)) ∧
  unordered_map.size (dumpsys_functions_ (world_of o)) =
    unordered_map.size (dumpsys_functions_ w).
Proof.
  intros Hnd [func Hf] o. subst o. rewrite run_pbind. unfold bind.
  rewrite run_Unregister, Hf. cbn [unordered_map.is_end].
  rewrite run_Register. cbn [dumpsys_functions_ trace promises].
  pose proof (find_erase_eq token _ Hnd) as He. rewrite He. simpl.
  split; [done|]. split; [by apply find_insert_eq|]. split.
  - intros k Hk. rewrite find_insert_ne by done. by apply find_erase_ne.
  - unfold unordered_map.insert. rewrite He. simpl.
    by apply (length_erase token func).
Qed.

(** ** Sequences of calls *)

(** X5. Register and Unregister print nothing and construct no promise: after
    any sequence of such calls, whether all return or one aborts, the trace
    and the number of promises are what they were. *)
Theorem registry_calls_are_silent (ops : list Op) (w : World) :
  Forall (λ op, is_registry_call op = true) ops →
  trace (world_of (run (calls ops) w)) = trace w ∧
  promises (world_of (run (calls ops) w)) = promises w.
Proof.
  intros Hops. revert w. induction Hops as [|op rest Hop _ IH]; intros w; [done|].
  simpl. rewrite run_pbind. unfold bind.
  destruct op as [t f|t|stack fd args]; [| |done]; cbn [call].
  - rewrite run_Register. destruct (unordered_map.is_end _); [|done].
    destruct (IH {| dumpsys_functions_ :=
                      unordered_map.insert t f (dumpsys_functions_ w);
                    trace := trace w; promises := promises w |}) as [-> ->]. done.
  - rewrite run_Unregister. destruct (unordered_map.is_end _); [done|].
    destruct (IH {| dumpsys_functions_ :=
                      unordered_map.erase t (dumpsys_functions_ w);
                    trace := trace w; promises := promises w |}) as [-> ->]. done.
Qed.




(** ** What Dump reports *)


(** X9. Dump uses no descriptor but the one it is given: every line it
    prints, every handler it invokes and the submission carry [fd], and on any
    other descriptor the call writes nothing. *)
Theorem Dump_uses_only_its_fd
    (stack : Stack) (fd : Fd) (args : Args) (w : World) :
  let new := since w (world_of (run (Dump stack fd args) w)) in
  (∀ e fd', e ∈ new → fd_of e = Some fd' → fd' = fd) ∧
  (∀ fd', fd' ≠ fd → written fd' new = []).
Proof.
  intros new.
  assert (∀ e fd', e ∈ new → fd_of e = Some fd' → fd' = fd) as Hfd.
  { subst new. rewrite Dump_since. intros e fd'.
    rewrite elem_of_app, elem_of_cons. intros [Hin|[->|Hin]].
    - destruct (unordered_map.empty _).
      + apply list_elem_of_singleton in Hin as ->. by intros [= <-].
      + apply elem_of_cons in Hin as [->|Hin]; [by intros [= <-]|].
        apply list_elem_of_fmap in Hin as (d & -> & _). by intros [= <-].
    - by intros [= <-].
    - destruct (is_running stack); apply list_elem_of_singleton in Hin as ->;
        [done | by intros [= <-]]. }
  split; [exact Hfd|].
  intros fd' Hne. clearbody new.
  induction new as [|e rest IH]; [done|].
  assert (written fd' rest = []) as Hrest.
  { apply IH. intros e' fd'' Hin. apply Hfd. by right. }
  pose proof (Hfd e) as He.
  destruct e as [fd0 text|t fd0 text|p fd0 a b|p bd bl st]; simpl; try done.
  - rewrite decide_False; [done|]. intros ->. apply Hne. apply He; [left | done].
  - rewrite decide_False; [done|]. intros ->. apply Hne. apply He; [left | done].
Qed.

(** ** The further properties at concrete inputs *)

Lemma Register_inserts_witness :
  let func : DumpsysFunction := λ _, "two" in
  let w := {| dumpsys_functions_ := [(7%N, λ _, "one")]; trace := []; promises := 0 |} in
  let o := run (RegisterDumpsysFunction 9%N func) w in
  unordered_map.find 9%N (dumpsys_functions_ w) = None ∧
  returns o = true ∧
  unordered_map.find 9%N (dumpsys_functions_ (world_of o)) = Some func.
Proof.
  intros func w o.
  assert (unordered_map.find 9%N (dumpsys_functions_ w) = None) as Hf by reflexivity.
  split; [exact Hf|].
  destruct (Register_inserts 9%N func w Hf) as (Hret & Hfind & _).
  split; [exact Hret | exact Hfind].
Defined.

Lemma Unregister_erases_witness :
  let w := {| dumpsys_functions_ := [(9%N, λ _, "two"); (7%N, λ _, "one")];
              trace := []; promises := 0 |} in
  let o := run (UnregisterDumpsysFunction 7%N) w in
  unique_keys w ∧
  is_Some (unordered_map.find 7%N (dumpsys_functions_ w)) ∧
  returns o = true ∧
  unordered_map.find 7%N (dumpsys_functions_ (world_of o)) = None.
Proof.
  intros w o.
  assert (unique_keys w) as Hnd.
  { unfold unique_keys. apply (bool_decide_unpack _). vm_compute. exact I. }
  assert (is_Some (unordered_map.find 7%N (dumpsys_functions_ w))) as Hf.
  { eexists. reflexivity. }
  split; [exact Hnd|]. split; [exact Hf|].
  destruct (Unregister_erases 7%N w Hnd Hf) as (Hret & Hfind & _).
  split; [exact Hret | exact Hfind].
Defined.

Lemma Register_Unregister_round_trip_witness :
  let w := {| dumpsys_functions_ := [(7%N, λ _, "one")]; trace := []; promises := 0 |} in
  let o := run (RegisterDumpsysFunction 9%N (λ _, "two") ;;;
                UnregisterDumpsysFunction 9%N) w in
  unordered_map.find 9%N (dumpsys_functions_ w) = None ∧
  returns o = true ∧
  unordered_map.size (dumpsys_functions_ (world_of o)) =
    unordered_map.size (dumpsys_functions_ w).
Proof.
  intros w o.
  assert (unordered_map.find 9%N (dumpsys_functions_ w) = None) as Hf by reflexivity.
  split; [exact Hf|].
  destruct (Register_Unregister_round_trip 9%N (λ _, "two") w Hf) as (Hret & _ & Hsize & _).
  split; [exact Hret | exact Hsize].
Defined.

Lemma Unregister_Register_replaces_witness :
  let func' : DumpsysFunction := λ _, "one, again" in
  let w := {| dumpsys_functions_ := [(9%N, λ _, "two"); (7%N, λ _, "one")];
              trace := []; promises := 0 |} in
  let o := run (UnregisterDumpsysFunction 7%N ;;;
                RegisterDumpsysFunction 7%N func') w in
  unique_keys w ∧
  is_Some (unordered_map.find 7%N (dumpsys_functions_ w)) ∧
  returns o = true ∧
  unordered_map.find 7%N (dumpsys_functions_ (world_of o)) = Some func'.
Proof.
  intros func' w o.
  assert (unique_keys w) as Hnd.
  { unfold unique_keys. apply (bool_decide_unpack _). vm_compute. exact I. }
  assert (is_Some (unordered_map.find 7%N (dumpsys_functions_ w))) as Hf.
  { eexists. reflexivity. }
  split; [exact Hnd|]. split; [exact Hf|].
  destruct (Unregister_Register_replaces 7%N func' w Hnd Hf) as (Hret & Hfind & _).
  split; [exact Hret | exact Hfind].
Defined.

Lemma registry_calls_are_silent_witness :
  let ops := [OpRegister 7%N (λ _, "one"); OpUnregister 7%N; OpUnregister 7%N] in
  Forall (λ op, is_registry_call op = true) ops ∧
  trace (world_of (run (calls ops) initial)) = trace initial.
Proof.
  intros ops.
  assert (Forall (λ op, is_registry_call op = true) ops) as Hops.
  { repeat constructor. }
  split; [exact Hops|].
  exact (proj1 (registry_calls_are_silent ops initial Hops)).
Defined.




Lemma Dump_uses_only_its_fd_witness :
  let w := {| dumpsys_functions_ := [(7%N, λ _, "one")]; trace := []; promises := 0 |} in
  let new := since w (world_of (run (Dump (mkStack false Kept) 3%Z []) w)) in
  4%Z ≠ 3%Z ∧ written 4%Z new = [].
Proof.
  intros w new.
  assert (4%Z ≠ 3%Z) as Hne by discriminate.
  split; [exact Hne|].
  exact (proj2 (Dump_uses_only_its_fd (mkStack false Kept) 3%Z [] w) 4%Z Hne).
Defined.
